(** * adonix: the model registry and the newsletter subscription route

    A shallow embedding of

    - [database/models.ts]: the [Group] and collection enums,
      [generateConfig], [getModel] and the static table [Models];
    - [services/newsletter/newsletter-router.ts]: the CORS origin check
      and the [POST /newsletter/subscribe/] handler.

    The router file holds two revisions of the route; the handler body is
    the same in both, and the later one, which adds the CORS check, is
    the one embedded here.

    Libraries the code calls (typegoose, mongoose, cors, express) are not
    part of the repository; the operations used from them are modelled
    next to the place where the code calls them, each with a comment
    saying what is modelled. *)

From Stdlib Require Import ZArith Ascii String.
From stdpp Require Import base decidable option strings list gmap.

Local Open Scope string_scope.
Local Open Scope list_scope.

(* ===================================================================== *)
(** * database/models.ts *)
(* ===================================================================== *)

(** ** Groups for collections *)

Module Group.
Inductive t :=
| AUTH | USER | EVENT | ADMISSION | ATTENDEE
| NEWSLETTER | REGISTRATION | SHOP | STAFF.

Definition value (g : t) : string :=
  match g with
  | AUTH => "auth"
  | USER => "user"
  | EVENT => "event"
  | ADMISSION => "admission"
  | ATTENDEE => "attendee"
  | NEWSLETTER => "newsletter"
  | REGISTRATION => "registration"
  | SHOP => "shop"
  | STAFF => "staff"
  end.
End Group.

(** ** Collections for each database *)

Module AttendeeCollection.
Inductive t := METADATA | PROFILE | FOLLOWING.
Definition value (c : t) : string :=
  match c with
  | METADATA => "metadata"
  | PROFILE => "profile"
  | FOLLOWING => "following"
  end.
End AttendeeCollection.

Module AuthCollection.
Inductive t := INFO.
Definition value (c : t) : string := match c with INFO => "info" end.
End AuthCollection.

Module AdmissionCollection.
Inductive t := DECISION.
Definition value (c : t) : string := match c with DECISION => "decision" end.
End AdmissionCollection.

Module EventCollection.
Inductive t := METADATA | ATTENDANCE | EVENTS | FOLLOWERS.
Definition value (c : t) : string :=
  match c with
  | METADATA => "metadata"
  | ATTENDANCE => "attendance"
  | EVENTS => "events"
  | FOLLOWERS => "followers"
  end.
End EventCollection.

Module NewsletterCollection.
Inductive t := SUBSCRIPTIONS.
Definition value (c : t) : string := match c with SUBSCRIPTIONS => "subscriptions" end.
End NewsletterCollection.

Module RegistrationCollection.
Inductive t := APPLICATIONS.
Definition value (c : t) : string := match c with APPLICATIONS => "applications" end.
End RegistrationCollection.

Module ShopCollection.
Inductive t := ITEMS.
Definition value (c : t) : string := match c with ITEMS => "items" end.
End ShopCollection.

Module UserCollection.
Inductive t := INFO | ATTENDANCE.
Definition value (c : t) : string :=
  match c with
  | INFO => "users"
  | ATTENDANCE => "attendance"
  end.
End UserCollection.

Module StaffCollection.
Inductive t := SHIFT.
Definition value (c : t) : string := match c with SHIFT => "shift" end.
End StaffCollection.

(** ** Model options *)

(** mongoose's [versionKey] schema option is [string | boolean]: a field
    name, or [false] to switch the [__v] bookkeeping field off. *)
Inductive VersionKey :=
| VersionKeyFlag (b : bool)
| VersionKeyName (name : string).

Record SchemaOptions := {
  collection : string;
  versionKey : VersionKey;
}.

Record IModelOptions := {
  schemaOptions : SchemaOptions;
}.

Definition generateConfig (collection : string) : IModelOptions :=
  {| schemaOptions := {| collection := collection; versionKey := VersionKeyFlag false |} |}.

(** The record classes imported at the top of [models.ts]; they are the
    [of] argument of [getModel] (written [ofClass] here). *)
Module ModelClass.
Inductive t :=
| AuthInfo
| AttendeeFollowing | AttendeeMetadata | AttendeeProfile
| AdmissionDecision
| Event | EventAttendance | EventFollowers
| NewsletterSubscription
| RegistrationApplication
| ShopItem
| UserAttendance | UserInfo
| StaffShift.

#[global] Instance eq_dec : EqDecision t.
Proof. solve_decision. Defined.
End ModelClass.

(** A model handle ([mongoose.Model<T>]): the record class it is typed by
    and the options its backing collection was initialised with. *)
Record Model := {
  modelOf : ModelClass.t;
  modelOptions : IModelOptions;
}.

Definition modelCollection (m : Model) : string :=
  collection (schemaOptions (modelOptions m)).

Definition modelVersionKey (m : Model) : VersionKey :=
  versionKey (schemaOptions (modelOptions m)).

(** Modelled from the spec: typegoose's [getModelForClass] is not in the
    repository.  The spec's registry: the process-wide mapping from a
    storage collection identifier to its handle; if a handle for the
    identifier already exists it is returned, otherwise the backing
    collection is initialised with the given options and a new handle is
    recorded and returned. *)
Definition getModelForClass (ofClass : ModelClass.t) (options : IModelOptions)
    (registry : gmap string Model) : Model * gmap string Model :=
  let name := collection (schemaOptions options) in
  match registry !! name with
  | Some existing => (existing, registry)
  | None =>
      let compiled := {| modelOf := ofClass; modelOptions := options |} in
      (compiled, <[name := compiled]> registry)
  end.

(** The template literal [`${group}_${collection}`]. *)
Definition storageIdentifier (group : Group.t) (collection : string) : string :=
  Group.value group +:+ "_" +:+ collection.

(** Simple model getter *)
Definition getModel (ofClass : ModelClass.t) (group : Group.t) (collection : string)
    (registry : gmap string Model) : Model * gmap string Model :=
  getModelForClass ofClass (generateConfig (storageIdentifier group collection)) registry.

(** ** Define models *)

(** One row per static field of [class Models], in declaration order:
    the field's record class, its group and its collection tag. *)
Definition Models_table : list (ModelClass.t * Group.t * string) :=
  [ (ModelClass.AttendeeMetadata, Group.ATTENDEE, AttendeeCollection.value AttendeeCollection.METADATA);
    (ModelClass.AttendeeProfile, Group.ATTENDEE, AttendeeCollection.value AttendeeCollection.PROFILE);
    (ModelClass.AttendeeFollowing, Group.ATTENDEE, AttendeeCollection.value AttendeeCollection.FOLLOWING);
    (ModelClass.AuthInfo, Group.AUTH, AuthCollection.value AuthCollection.INFO);
    (ModelClass.AdmissionDecision, Group.ADMISSION, AdmissionCollection.value AdmissionCollection.DECISION);
    (ModelClass.Event, Group.EVENT, EventCollection.value EventCollection.EVENTS);
    (ModelClass.EventAttendance, Group.EVENT, EventCollection.value EventCollection.ATTENDANCE);
    (ModelClass.EventFollowers, Group.EVENT, EventCollection.value EventCollection.FOLLOWERS);
    (ModelClass.NewsletterSubscription, Group.NEWSLETTER, NewsletterCollection.value NewsletterCollection.SUBSCRIPTIONS);
    (ModelClass.RegistrationApplication, Group.REGISTRATION, RegistrationCollection.value RegistrationCollection.APPLICATIONS);
    (ModelClass.ShopItem, Group.SHOP, ShopCollection.value ShopCollection.ITEMS);
    (ModelClass.UserInfo, Group.USER, UserCollection.value UserCollection.INFO);
    (ModelClass.UserAttendance, Group.USER, UserCollection.value UserCollection.ATTENDANCE);
    (ModelClass.StaffShift, Group.STAFF, StaffCollection.value StaffCollection.SHIFT) ].

Definition rowIdentifier (row : ModelClass.t * Group.t * string) : string :=
  storageIdentifier (row.1.2) (row.2).

(** The static initialisers run top to bottom, each calling [getModel]
    on the registry left by the one before. *)
Fixpoint Models_init (rows : list (ModelClass.t * Group.t * string))
    (registry : gmap string Model) : list Model * gmap string Model :=
  match rows with
  | [] => ([], registry)
  | (ofClass, group, tag) :: rest =>
      let '(handle, registry1) := getModel ofClass group tag registry in
      let '(handles, registry2) := Models_init rest registry1 in
      (handle :: handles, registry2)
  end.

Definition Models : list Model := (Models_init Models_table ∅).1.

(** [Models.NewsletterSubscription] *)
Definition Models_NewsletterSubscription : option Model :=
  snd <$> list_find (λ m, modelOf m = ModelClass.NewsletterSubscription) Models.


(* ===================================================================== *)
(** * services/newsletter/newsletter-router.ts *)
(* ===================================================================== *)

(** ** Values the router exchanges with its collaborators *)

(** The two members of [status-code-enum] the router names. *)
Module StatusCode.
Definition SuccessOK : Z := 200.
Definition ClientErrorBadRequest : Z := 400.
End StatusCode.

(** What the router hands to [next]: a [RouterError] carrying a status code
    and a message, or a plain [Error] carrying a message. *)
Inductive Error :=
| RouterError (statusCode : Z) (message : string)
| PlainError (message : string).

(** A JSON object with string members, as sent by [res.send]. *)
Definition Json := list (string * string).

(** How a request leaves the router: [res.status(s).send(b)] or
    [next(err)]. *)
Inductive Reply :=
| Send (status : Z) (payload : Json)
| NextError (err : Error).

(** Modelled from the spec: [middleware/error-handler.ts] is not in the
    repository.  A validation error is reported to the caller as the HTTP
    status of the [RouterError] with body [{ "error": message }]; for a
    plain error the spec promises no body. *)
Definition errorHandler (err : Error) : option (Z * Json) :=
  match err with
  | RouterError statusCode message => Some (statusCode, [("error", message)])
  | PlainError _ => None
  end.

(** The HTTP response the client sees, when one is determined. *)
Definition httpResponse (r : Reply) : option (Z * Json) :=
  match r with
  | Send status payload => Some (status, payload)
  | NextError err => errorHandler err
  end.

(** [SubscribeRequest] ([newsletter-formats.ts]): the two fields the
    handler reads, each [string | undefined], and whatever else the JSON
    body carries. *)
Record SubscribeRequest := {
  listName : option string;
  emailAddress : option string;
  otherFields : Json;
}.

(** The parts of an express [Request] the router looks at:
    [request.headers.origin] and [request.body]. *)
Record Request := {
  origin : option string;
  body : SubscribeRequest;
}.

(** JavaScript truthiness of a [string | undefined]: [undefined] and the
    empty string are falsy.  In the branch where [!x] is false,
    TypeScript narrows [x] to [string]; [truthy] returns that string. *)
Definition truthy (x : option string) : option string :=
  match x with
  | Some s => if bool_decide (s = "") then None else Some s
  | None => None
  end.

(** ** The subscriptions collection and the storage engine *)

(** A document of the collection behind [Models.NewsletterSubscription]:
    the field the handler filters on and the field it updates. *)
Record NewsletterSubscription := {
  newsletterId : string;
  subscribers : list string;
}.

(** [{ newsletterId: listName }] *)
Record FilterQuery := { filter_newsletterId : string }.

(** [{ $addToSet: { subscribers: emailAddress } }] *)
Record UpdateQuery := { addToSet_subscribers : string }.

(** [{ upsert: true }] *)
Record QueryOptions := { upsert : bool }.

(** One [findOneAndUpdate] call as it reaches the storage engine. *)
Record StorageCall := {
  call_filter : FilterQuery;
  call_update : UpdateQuery;
  call_options : QueryOptions;
}.

(** The storage backend: the documents of the collection in insertion
    order, and whether the engine can currently be reached. *)
Record Database := {
  documents : list NewsletterSubscription;
  connected : bool;
}.

Definition matchesFilter (f : FilterQuery) (d : NewsletterSubscription) : bool :=
  bool_decide (newsletterId d = filter_newsletterId f).

(** MongoDB's [$addToSet]: append the value unless the array holds it. *)
Definition addToSet (v : string) (arr : list string) : list string :=
  if bool_decide (v ∈ arr) then arr else arr ++ [v].

Definition applyUpdate (u : UpdateQuery) (d : NewsletterSubscription) : NewsletterSubscription :=
  {| newsletterId := newsletterId d;
     subscribers := addToSet (addToSet_subscribers u) (subscribers d) |}.

(** [findOne]: the first document that matches. *)
Fixpoint findOne (f : FilterQuery) (docs : list NewsletterSubscription)
    : option NewsletterSubscription :=
  match docs with
  | [] => None
  | d :: rest => if matchesFilter f d then Some d else findOne f rest
  end.

(** Apply the update to the first document that matches, in place. *)
Fixpoint updateOne (f : FilterQuery) (u : UpdateQuery)
    (docs : list NewsletterSubscription) : list NewsletterSubscription :=
  match docs with
  | [] => []
  | d :: rest =>
      if matchesFilter f d then applyUpdate u d :: rest
      else d :: updateOne f u rest
  end.

(** The document an upsert inserts: the filter's equality field, with the
    update applied to it. *)
Definition upsertDocument (f : FilterQuery) (u : UpdateQuery) : NewsletterSubscription :=
  applyUpdate u {| newsletterId := filter_newsletterId f; subscribers := [] |}.

(** [findOneAndUpdate] on the documents: the engine finds, updates or
    inserts in one indivisible step and answers with the document as it
    was before the update ([null] when none matched). *)
Definition findOneAndUpdate_documents (call : StorageCall)
    (docs : list NewsletterSubscription)
    : option NewsletterSubscription * list NewsletterSubscription :=
  let f := call_filter call in
  let u := call_update call in
  match findOne f docs with
  | Some before => (Some before, updateOne f u docs)
  | None =>
      if upsert (call_options call)
      then (None, docs ++ [upsertDocument f u])
      else (None, docs)
  end.

(** How an awaited promise settles. *)
Inductive Result (A : Type) :=
| Resolved (value : A)
| Rejected (reason : string).
Arguments Resolved {A} value.
Arguments Rejected {A} reason.

(** The engine executing one call: it fails without touching the
    documents when the backend cannot be reached. *)
Definition execute (call : StorageCall) (db : Database)
    : Result (option NewsletterSubscription) * Database :=
  if connected db then
    let '(before, docs) := findOneAndUpdate_documents call (documents db) in
    (Resolved before, {| documents := docs; connected := connected db |})
  else (Rejected "storage backend unreachable", db).

(** ** Asynchronous handlers *)

(** An async handler is a program that either finishes with a value or
    waits on a storage call and resumes with its answer.  The [await] is
    the only point where the handler is suspended. *)
Inductive Program (A : Type) :=
| Return (value : A)
| Await (call : StorageCall) (resume : option NewsletterSubscription → Program A).
Arguments Return {A} value.
Arguments Await {A} call resume.

Fixpoint Program_bind {A B : Type} (k : A → Program B) (p : Program A) : Program B :=
  match p with
  | Return a => k a
  | Await call resume => Await call (λ answer, Program_bind k (resume answer))
  end.

#[global] Instance Program_ret : MRet Program := λ A a, Return a.
#[global] Instance Program_mbind : MBind Program := λ A B k p, Program_bind k p.

(** Running a handler to completion with no other request in between.  A
    rejected [await] throws out of the handler. *)
Fixpoint run {A : Type} (p : Program A) (db : Database) : Result A * Database :=
  match p with
  | Return a => (Resolved a, db)
  | Await call resume =>
      match execute call db with
      | (Resolved answer, db') => run (resume answer) db'
      | (Rejected reason, db') => (Rejected reason, db')
      end
  end.

(** [Models.NewsletterSubscription.findOneAndUpdate(filter, update, options)] *)
Definition findOneAndUpdate (filter : FilterQuery) (update : UpdateQuery)
    (options : QueryOptions) : Program (option NewsletterSubscription) :=
  Await {| call_filter := filter; call_update := update; call_options := options |} Return.

(** ** POST /newsletter/subscribe/ *)

Definition post_subscribe (request : Request) : Program Reply :=
  let requestBody := body request in
  let listName := listName requestBody in
  let emailAddress := emailAddress requestBody in
  (* Verify that both parameters do exist *)
  match truthy listName, truthy emailAddress with
  | Some listName, Some emailAddress =>
      let updateQuery := {| addToSet_subscribers := emailAddress |} in
      _ ← findOneAndUpdate {| filter_newsletterId := listName |} updateQuery {| upsert := true |};
      mret (Send StatusCode.SuccessOK [("status", "Success")])
  | _, _ =>
      mret (NextError (RouterError StatusCode.ClientErrorBadRequest "InvalidParams"))
  end.

(** ** CORS: only a certain set of regexes is allowed *)

(** [new RegExp(source)], built without flags, so that [test] keeps no
    state between calls. *)
Record RegExp := { source : string }.

(** [RegExp.prototype.test] belongs to the JavaScript runtime. *)
Class RegExpEngine := { RegExp_test : RegExp → string → bool }.

(** [Config.NEWSLETTER_CORS] ([config.ts] is not in the repository): the
    two pattern strings read at startup. *)
Record NewsletterCors := {
  PROD_REGEX : string;
  DEPLOY_REGEX : string;
}.

Definition allowedOrigins (Config_NEWSLETTER_CORS : NewsletterCors) : list RegExp :=
  [ {| source := PROD_REGEX Config_NEWSLETTER_CORS |};
    {| source := DEPLOY_REGEX Config_NEWSLETTER_CORS |} ].

(** Modelled from the spec: [regexPasses] lives in [newsletter-lib.ts],
    which is not in the repository.  The origin is tested against every
    rule in order; a match with any rule passes. *)
Definition regexPasses `{RegExpEngine} (target : string) (patterns : list RegExp) : bool :=
  existsb (λ pattern, RegExp_test pattern target) patterns.

(** The two ways the origin function calls back:
    [callback(null, true)] and [callback(new Error(...))]. *)
Inductive CorsCallback :=
| Callback (error : option Error) (allow : option bool).

(** [corsOptions.origin] *)
Definition corsOptions_origin `{RegExpEngine} (Config_NEWSLETTER_CORS : NewsletterCors)
    (origin : option string) : CorsCallback :=
  match truthy origin with
  | None => Callback None (Some true)
  | Some origin =>
      if regexPasses origin (allowedOrigins Config_NEWSLETTER_CORS)
      then Callback None (Some true)
      else Callback (Some (PlainError "Not allowed by CORS")) None
  end.

(** The [cors] middleware given an origin function, on a request that is
    not a preflight: an error from the callback goes to [next(err)] and
    the rest of the chain is skipped; otherwise the chain continues
    (with the allow headers set when the callback allowed the origin). *)
Definition cors (originFn : option string → CorsCallback) (request : Request)
    (next : Program Reply) : Program Reply :=
  match originFn (origin request) with
  | Callback (Some err) _ => mret (NextError err)
  | Callback None _ => next
  end.

(** Whether the origin function lets the request through. *)
Definition isAllowed `{RegExpEngine} (Config_NEWSLETTER_CORS : NewsletterCors)
    (origin : option string) : bool :=
  match corsOptions_origin Config_NEWSLETTER_CORS origin with
  | Callback None (Some true) => true
  | _ => false
  end.

(** [newsletterRouter]: [use(cors(corsOptions))], then the route. *)
Definition newsletterRouter `{RegExpEngine} (Config_NEWSLETTER_CORS : NewsletterCors)
    (request : Request) : Program Reply :=
  cors (corsOptions_origin Config_NEWSLETTER_CORS) request (post_subscribe request).

(** ** Requests served concurrently *)

(** A request in flight: its handler's remaining program, or the reason
    its awaited call was rejected with. *)
Inductive Task :=
| Active (p : Program Reply)
| Failed (reason : string).

(** One turn of the event loop for a task: the storage call it waits on
    is executed by the engine in one piece and the handler runs on to its
    next suspension point.  A task that has finished stays as it is. *)
Definition stepTask (t : Task) (db : Database) : Task * Database :=
  match t with
  | Active (Await call resume) =>
      match execute call db with
      | (Resolved answer, db') => (Active (resume answer), db')
      | (Rejected reason, db') => (Failed reason, db')
      end
  | _ => (t, db)
  end.

Definition outcome (t : Task) : option (Result Reply) :=
  match t with
  | Active (Return r) => Some (Resolved r)
  | Active (Await _ _) => None
  | Failed reason => Some (Rejected reason)
  end.

(** Two requests being served against the same collection. *)
Record Server := {
  database : Database;
  first : Task;
  second : Task;
}.

Inductive Turn := First | Second.

#[global] Instance Turn_eq_dec : EqDecision Turn.
Proof. solve_decision. Defined.

Definition serve (s : Server) (turn : Turn) : Server :=
  match turn with
  | First =>
      let '(t, db) := stepTask (first s) (database s) in
      {| database := db; first := t; second := second s |}
  | Second =>
      let '(t, db) := stepTask (second s) (database s) in
      {| database := db; first := first s; second := t |}
  end.

(** An interleaving is the order in which the event loop gives turns. *)
Definition interleave (turns : list Turn) (s : Server) : Server :=
  foldl serve s turns.

Definition accept (db : Database) (r1 r2 : Request) : Server :=
  {| database := db;
     first := Active (post_subscribe r1);
     second := Active (post_subscribe r2) |}.

(** ** The subscription lists as a state machine *)

(** One step of the core: some request is served by the router. *)
Definition coreStep `{RegExpEngine} (Config_NEWSLETTER_CORS : NewsletterCors)
    (db db' : Database) : Prop :=
  ∃ request, (run (newsletterRouter Config_NEWSLETTER_CORS request) db).2 = db'.

(** Nothing was taken away between [before] and [after]: every document
    is still at its place under the same [newsletterId], holding at
    least the subscribers it held. *)
Definition nothingRemoved (before after : list NewsletterSubscription) : Prop :=
  ∀ i d, before !! i = Some d →
    ∃ d', after !! i = Some d' ∧ newsletterId d' = newsletterId d
          ∧ subscribers d ⊆ subscribers d'.

(** ** A small regular-expression engine

    Enough of the JavaScript pattern language to run the router on
    concrete origins: literal characters, backslash escapes, [.], a
    postfix [*] on a single character or [.], and the anchors. *)

Module MiniRegExp.
Inductive Token :=
| Char (c : ascii)
| AnyChar
| StarOp
| BeginAnchor
| EndAnchor.

Fixpoint tokenize (pattern : string) : list Token :=
  match pattern with
  | EmptyString => []
  | String "\"%char (String c rest) => Char c :: tokenize rest
  | String "."%char rest => AnyChar :: tokenize rest
  | String "*"%char rest => StarOp :: tokenize rest
  | String "^"%char rest => BeginAnchor :: tokenize rest
  | String "$"%char rest => EndAnchor :: tokenize rest
  | String c rest => Char c :: tokenize rest
  end.

Definition accepts (t : Token) (c : ascii) : bool :=
  match t with
  | Char c' => bool_decide (c = c')
  | AnyChar => true
  | _ => false
  end.

Fixpoint matchHere (re : list Token) (text : string) {struct re} : bool :=
  match re with
  | [] => true
  | t :: StarOp :: rest =>
      (fix matchStar (text : string) : bool :=
         matchHere rest text ||
         match text with
         | String c text' => accepts t c && matchStar text'
         | EmptyString => false
         end) text
  | [EndAnchor] => bool_decide (text = "")
  | t :: rest =>
      match text with
      | String c text' => accepts t c && matchHere rest text'
      | EmptyString => false
      end
  end.

Fixpoint matchAnywhere (re : list Token) (text : string) : bool :=
  matchHere re text ||
  match text with
  | String _ text' => matchAnywhere re text'
  | EmptyString => false
  end.

Definition test (re : RegExp) (target : string) : bool :=
  match tokenize (source re) with
  | BeginAnchor :: re' => matchHere re' target
  | re' => matchAnywhere re' target
  end.

Definition engine : RegExpEngine := {| RegExp_test := test |}.
End MiniRegExp.

(** ** Sample data

    A configuration of the shape the deployment uses: a pattern for the
    production domain and a pattern for preview deployments on any
    subdomain. *)
Definition sampleCors : NewsletterCors :=
  {| PROD_REGEX := "^https://hackillinois\.org$";
     DEPLOY_REGEX := "^https://.*\.hackillinois\.org$" |}.

Definition sampleRequest (o : option string) (l e : option string) : Request :=
  {| origin := o;
     body := {| listName := l; emailAddress := e; otherFields := [] |} |}.

Definition emptyDatabase : Database := {| documents := []; connected := true |}.

(** The list a name refers to is the first document filed under it. *)
Definition subscribersOf (l : string) (db : Database) : option (list string) :=
  subscribers <$> findOne {| filter_newsletterId := l |} (documents db).

(** The call the handler issues for a list name and an email address. *)
Definition subscribeCall (l e : string) : StorageCall :=
  {| call_filter := {| filter_newsletterId := l |};
     call_update := {| addToSet_subscribers := e |};
     call_options := {| upsert := true |} |}.

(** The handler's acknowledgement. *)
Definition success : Reply := Send StatusCode.SuccessOK [("status", "Success")].

(** A request carries the pair [(l, e)] when both fields are present
    with these values and neither is the empty string. *)
Definition carries (request : Request) (l e : string) : Prop :=
  listName (body request) = Some l ∧ l ≠ ""
  ∧ emailAddress (body request) = Some e ∧ e ≠ "".

(** [e] is a subscriber of the list named [l]. *)
Definition subscribed (l e : string) (db : Database) : Prop :=
  ∃ d, findOne {| filter_newsletterId := l |} (documents db) = Some d
       ∧ e ∈ subscribers d.

(** Running a task to completion with no other request in between. *)
Definition finish (t : Task) (db : Database) : Result Reply * Database :=
  match t with
  | Active p => run p db
  | Failed reason => (Rejected reason, db)
  end.

(** The collection is well formed when every list name is filed once
    and no list holds an address twice. *)
Definition wellFormed (docs : list NewsletterSubscription) : Prop :=
  NoDup (newsletterId <$> docs) ∧ ∀ d, d ∈ docs → NoDup (subscribers d).

(** The two serial executions of a pair of requests, with what each
    request is answered and what the database holds at the end. *)
Definition serial (db : Database) (p q : Program Reply)
    : Result Reply * Result Reply * Database :=
  let '(rp, db1) := run p db in
  let '(rq, db2) := run q db1 in
  (rp, rq, db2).

(** A handler that waits on at most one storage call and does not look
    at its answer. *)
Definition oneCall (p : Program Reply) : Prop :=
  (∃ reply, p = Return reply) ∨ (∃ call reply, p = Await call (λ _, Return reply)).

(* ===================================================================== *)
(** * Properties of the model registry *)
(* ===================================================================== *)

Section Registry.

Implicit Types (registry : gmap string Model) (group : Group.t) (tag : string).

Lemma getModel_existing ofClass group tag registry h :
  registry !! storageIdentifier group tag = Some h →
  getModel ofClass group tag registry = (h, registry).
Proof.
  intros Hh. unfold getModel, getModelForClass. cbn. by rewrite Hh.
Qed.

Lemma getModel_fresh ofClass group tag registry :
  registry !! storageIdentifier group tag = None →
  getModel ofClass group tag registry =
    (let h := {| modelOf := ofClass;
                 modelOptions := generateConfig (storageIdentifier group tag) |} in
     (h, <[storageIdentifier group tag := h]> registry)).
Proof.
  intros Hh. unfold getModel, getModelForClass. cbn. by rewrite Hh.
Qed.

(** After a registration the identifier is bound to the returned handle. *)
Lemma getModel_registered ofClass group tag registry :
  (getModel ofClass group tag registry).2 !! storageIdentifier group tag
  = Some (getModel ofClass group tag registry).1.
Proof.
  destruct (registry !! storageIdentifier group tag) as [h|] eqn:Hh.
  - by rewrite (getModel_existing _ _ _ _ h).
  - rewrite getModel_fresh by done. cbn. by rewrite lookup_insert_eq.
Qed.

(** C9: [getModel] names the collection [group_tag]; a handle already
    registered under that name is returned as it is and the registry is
    left alone; otherwise a new handle is recorded under the name, its
    collection initialised under that name with [versionKey] switched
    off.  Registering twice gives the same handle. *)
Theorem getModel_register ofClass group tag registry :
  storageIdentifier group tag = Group.value group +:+ "_" +:+ tag ∧
  (∀ h, registry !! storageIdentifier group tag = Some h →
        getModel ofClass group tag registry = (h, registry)) ∧
  (registry !! storageIdentifier group tag = None →
     ∃ h, getModel ofClass group tag registry
            = (h, <[storageIdentifier group tag := h]> registry)
          ∧ modelCollection h = storageIdentifier group tag
          ∧ modelVersionKey h = VersionKeyFlag false
          ∧ modelOf h = ofClass) ∧
  (let '(h, registry') := getModel ofClass group tag registry in
   ∀ ofClass', getModel ofClass' group tag registry' = (h, registry')).
Proof.
  split; [done|]. split; [|split].
  - intros h Hh. by apply getModel_existing.
  - intros Hnone. eexists. split; [by apply getModel_fresh|]. done.
  - pose proof (getModel_registered ofClass group tag registry) as Hreg.
    destruct (getModel ofClass group tag registry) as [h registry'].
    intros ofClass'. by apply getModel_existing.
Qed.

(** C4: the identifiers derived from the rows of the [Models] table are
    pairwise distinct. *)
Theorem Models_identifiers_distinct :
  NoDup (rowIdentifier <$> Models_table).
Proof. apply (bool_decide_unpack _). by vm_compute. Qed.

(** Each static field of [Models] is bound to the identifier of its row,
    and start-up leaves one registry entry per row. *)
Lemma Models_bound_to_rows :
  modelCollection <$> Models = rowIdentifier <$> Models_table
  ∧ size (Models_init Models_table ∅).2 = length Models_table.
Proof. split; by vm_compute. Qed.

Lemma Models_NewsletterSubscription_collection :
  modelCollection <$> Models_NewsletterSubscription = Some "newsletter_subscriptions".
Proof. by vm_compute. Qed.

End Registry.

(* ===================================================================== *)
(** * Properties of the storage operation *)
(* ===================================================================== *)

Section Storage.

Implicit Types (f : FilterQuery) (u : UpdateQuery) (d : NewsletterSubscription)
  (docs : list NewsletterSubscription) (v l e : string) (arr : list string).

Lemma truthy_Some (x : option string) s :
  truthy x = Some s ↔ x = Some s ∧ s ≠ "".
Proof.
  unfold truthy. destruct x as [s'|]; [case_bool_decide|];
    intuition congruence.
Qed.

Lemma truthy_None (x : option string) :
  truthy x = None ↔ x = None ∨ x = Some "".
Proof.
  unfold truthy. destruct x as [s'|]; [case_bool_decide|];
    intuition congruence.
Qed.

Lemma addToSet_elem v arr : v ∈ addToSet v arr.
Proof. unfold addToSet. case_bool_decide; set_solver. Qed.

Lemma addToSet_subseteq v arr : arr ⊆ addToSet v arr.
Proof. unfold addToSet. case_bool_decide; set_solver. Qed.

Lemma addToSet_present v arr : v ∈ arr → addToSet v arr = arr.
Proof. intros Hin. unfold addToSet. by rewrite bool_decide_eq_true_2. Qed.

Lemma addToSet_idemp v arr : addToSet v (addToSet v arr) = addToSet v arr.
Proof. apply addToSet_present, addToSet_elem. Qed.

Lemma applyUpdate_idemp u d : applyUpdate u (applyUpdate u d) = applyUpdate u d.
Proof. unfold applyUpdate. cbn. by rewrite addToSet_idemp. Qed.

Lemma matchesFilter_applyUpdate f u d :
  matchesFilter f (applyUpdate u d) = matchesFilter f d.
Proof. done. Qed.

Lemma findOne_None f docs :
  findOne f docs = None ↔ ∀ d, d ∈ docs → newsletterId d ≠ filter_newsletterId f.
Proof.
  induction docs as [|d docs IH]; cbn.
  - split; [|done]. intros _ d Hd. by apply elem_of_nil in Hd.
  - unfold matchesFilter. case_bool_decide as Hm.
    + split; [done|]. intros Hall. exfalso. apply (Hall d); [left|done].
    + rewrite IH. split.
      * intros Hall d' [->|Hd']%elem_of_cons; auto.
      * intros Hall d' Hd'. apply Hall. by right.
Qed.

Lemma updateOne_absent f u docs :
  findOne f docs = None → updateOne f u docs = docs.
Proof.
  induction docs as [|d docs IH]; cbn; [done|].
  destruct (matchesFilter f d); [done|]. intros Hn. by rewrite IH.
Qed.

Lemma findOne_updateOne f u docs d :
  findOne f docs = Some d →
  findOne f (updateOne f u docs) = Some (applyUpdate u d).
Proof.
  induction docs as [|d0 docs IH]; cbn; [done|].
  destruct (matchesFilter f d0) eqn:Hm; cbn.
  - intros [= ->]. by rewrite matchesFilter_applyUpdate, Hm.
  - rewrite Hm. apply IH.
Qed.

Lemma updateOne_idemp f u docs :
  updateOne f u (updateOne f u docs) = updateOne f u docs.
Proof.
  induction docs as [|d docs IH]; cbn; [done|].
  destruct (matchesFilter f d) eqn:Hm; cbn.
  - by rewrite matchesFilter_applyUpdate, Hm, applyUpdate_idemp.
  - by rewrite Hm, IH.
Qed.

Lemma findOne_app_l f docs extra d :
  findOne f docs = Some d → findOne f (docs ++ extra) = Some d.
Proof.
  induction docs as [|d0 docs IH]; cbn; [done|].
  destruct (matchesFilter f d0); [done|]. apply IH.
Qed.

Lemma findOne_app_r f docs extra :
  findOne f docs = None → findOne f (docs ++ extra) = findOne f extra.
Proof.
  induction docs as [|d0 docs IH]; cbn; [done|].
  destruct (matchesFilter f d0); [done|]. apply IH.
Qed.

Lemma findOne_upsertDocument f u docs :
  findOne f docs = None →
  findOne f (docs ++ [upsertDocument f u]) = Some (upsertDocument f u).
Proof.
  intros Hn. rewrite findOne_app_r by done. cbn.
  unfold matchesFilter. cbn. by rewrite bool_decide_eq_true_2.
Qed.

Lemma updateOne_app_r f u docs extra :
  findOne f docs = None →
  updateOne f u (docs ++ extra) = docs ++ updateOne f u extra.
Proof.
  induction docs as [|d0 docs IH]; cbn; [done|].
  destruct (matchesFilter f d0); [done|]. intros Hn. by rewrite IH.
Qed.

Lemma findOneAndUpdate_documents_present l e docs d0 :
  findOne {| filter_newsletterId := l |} docs = Some d0 →
  findOneAndUpdate_documents (subscribeCall l e) docs
  = (Some d0, updateOne {| filter_newsletterId := l |}
                {| addToSet_subscribers := e |} docs).
Proof. intros Hf. unfold findOneAndUpdate_documents. cbn. by rewrite Hf. Qed.

Lemma findOneAndUpdate_documents_absent l e docs :
  findOne {| filter_newsletterId := l |} docs = None →
  findOneAndUpdate_documents (subscribeCall l e) docs
  = (None, docs ++ [{| newsletterId := l; subscribers := [e] |}]).
Proof. intros Hf. unfold findOneAndUpdate_documents. cbn. by rewrite Hf. Qed.

(** What a subscribe call leaves under the list name. *)
Lemma findOneAndUpdate_documents_found l e docs :
  ∃ d, findOne {| filter_newsletterId := l |}
         (findOneAndUpdate_documents (subscribeCall l e) docs).2 = Some d
       ∧ e ∈ subscribers d
       ∧ ∀ d0, findOne {| filter_newsletterId := l |} docs = Some d0 →
               d = applyUpdate {| addToSet_subscribers := e |} d0.
Proof.
  unfold findOneAndUpdate_documents. cbn.
  destruct (findOne _ docs) as [d0|] eqn:Hf; cbn.
  - exists (applyUpdate {| addToSet_subscribers := e |} d0).
    split; [by apply findOne_updateOne|]. split; [apply addToSet_elem|].
    by intros ? [= <-].
  - eexists. split; [by apply findOne_upsertDocument|].
    split; [apply addToSet_elem|done].
Qed.

(** A second identical call changes nothing. *)
Lemma findOneAndUpdate_documents_idemp l e docs :
  (findOneAndUpdate_documents (subscribeCall l e)
     (findOneAndUpdate_documents (subscribeCall l e) docs).2).2
  = (findOneAndUpdate_documents (subscribeCall l e) docs).2.
Proof.
  destruct (findOne {| filter_newsletterId := l |} docs) as [d0|] eqn:Hf.
  - rewrite (findOneAndUpdate_documents_present _ _ _ _ Hf). cbn.
    rewrite (findOneAndUpdate_documents_present _ _ _ _
               (findOne_updateOne _ _ _ _ Hf)). cbn.
    apply updateOne_idemp.
  - rewrite (findOneAndUpdate_documents_absent _ _ _ Hf). cbn.
    pose proof (findOne_upsertDocument _ {| addToSet_subscribers := e |} _ Hf)
      as Hup. cbn in Hup.
    rewrite (findOneAndUpdate_documents_present _ _ _ _ Hup). cbn.
    rewrite updateOne_app_r by done. cbn.
    unfold matchesFilter. cbn. rewrite bool_decide_eq_true_2 by done.
    unfold applyUpdate. cbn. by rewrite addToSet_idemp.
Qed.

Lemma execute_connected call db :
  connected (execute call db).2 = connected db.
Proof.
  unfold execute. destruct (connected db) eqn:Hc; [|done].
  by destruct (findOneAndUpdate_documents _ _).
Qed.

Lemma execute_resolved call db :
  connected db = true →
  execute call db =
    (Resolved (findOneAndUpdate_documents call (documents db)).1,
     {| documents := (findOneAndUpdate_documents call (documents db)).2;
        connected := true |}).
Proof.
  intros Hc. unfold execute. rewrite Hc.
  by destruct (findOneAndUpdate_documents _ _).
Qed.

Lemma execute_rejected call db :
  connected db = false →
  execute call db = (Rejected "storage backend unreachable", db).
Proof. intros Hc. unfold execute. by rewrite Hc. Qed.

(** The engine answers with a value exactly when it can be reached. *)
Lemma execute_succeeds call db answer db' :
  execute call db = (Resolved answer, db') → connected db = true.
Proof.
  destruct (connected db) eqn:Hc; [done|]. by rewrite execute_rejected.
Qed.

End Storage.

(* ===================================================================== *)
(** * Properties of the subscribe handler *)
(* ===================================================================== *)

Section Subscribe.

Implicit Types (request : Request) (db : Database) (l e : string).

(** With both fields usable the handler is one storage call followed by
    the acknowledgement; the call's answer is not looked at. *)
Lemma post_subscribe_valid request l e :
  carries request l e →
  post_subscribe request = Await (subscribeCall l e) (λ _, Return success).
Proof.
  intros (Hl & Hl' & He & He'). unfold post_subscribe.
  rewrite (proj2 (truthy_Some _ l)), (proj2 (truthy_Some _ e)) by done.
  reflexivity.
Qed.

(** Otherwise it is the error and nothing else: no storage call. *)
Lemma post_subscribe_invalid request :
  truthy (listName (body request)) = None
  ∨ truthy (emailAddress (body request)) = None →
  post_subscribe request
  = Return (NextError (RouterError StatusCode.ClientErrorBadRequest "InvalidParams")).
Proof.
  unfold post_subscribe. intros [-> | ->]; [done|].
  by destruct (truthy (listName _)).
Qed.

Lemma run_post_subscribe_connected request l e db :
  carries request l e → connected db = true →
  run (post_subscribe request) db
  = (Resolved success,
     {| documents := (findOneAndUpdate_documents (subscribeCall l e) (documents db)).2;
        connected := true |}).
Proof.
  intros Hv Hc. rewrite (post_subscribe_valid _ _ _ Hv). cbn.
  by rewrite execute_resolved.
Qed.

Lemma run_post_subscribe_unreachable request l e db :
  carries request l e → connected db = false →
  run (post_subscribe request) db = (Rejected "storage backend unreachable", db).
Proof.
  intros Hv Hc. rewrite (post_subscribe_valid _ _ _ Hv). cbn.
  by rewrite execute_rejected.
Qed.

(** C1: subscribing the same pair a second time leaves the documents
    as the first call left them, so the list's subscriber array has the
    same length; when the backend is reachable the address is on the list
    after the first call already. *)
Theorem subscribe_twice_same_size request1 request2 l e db :
  carries request1 l e → carries request2 l e →
  let db1 := (run (post_subscribe request1) db).2 in
  let db2 := (run (post_subscribe request2) db1).2 in
  documents db2 = documents db1
  ∧ length <$> subscribersOf l db2 = length <$> subscribersOf l db1
  ∧ (connected db = true → subscribed l e db1 ∧ subscribed l e db2).
Proof.
  intros Hv1 Hv2 db1 db2.
  assert (documents db2 = documents db1) as Hdocs.
  { subst db1 db2. destruct (connected db) eqn:Hc.
    - rewrite (run_post_subscribe_connected _ _ _ _ Hv1 Hc). cbn.
      rewrite (run_post_subscribe_connected _ _ _ _ Hv2) by done. cbn.
      apply findOneAndUpdate_documents_idemp.
    - rewrite (run_post_subscribe_unreachable _ _ _ _ Hv1 Hc). cbn.
      by rewrite (run_post_subscribe_unreachable _ _ _ _ Hv2 Hc). }
  split; [done|]. split.
  - unfold subscribersOf. by rewrite Hdocs.
  - intros Hc. unfold subscribed. rewrite Hdocs. subst db1.
    rewrite (run_post_subscribe_connected _ _ _ _ Hv1 Hc). cbn.
    destruct (findOneAndUpdate_documents_found l e (documents db))
      as (d & Hd & Hin & _).
    split; by exists d.
Qed.

(** C2: when [listName] or [emailAddress] is missing or empty, the
    handler consists of handing [RouterError(400, "InvalidParams")] to
    [next]: it contains no storage call, the database is as before, and
    the error is rendered as a 400 with error [InvalidParams]. *)
Theorem subscribe_invalid_params request :
  (listName (body request) = None ∨ listName (body request) = Some "")
  ∨ (emailAddress (body request) = None ∨ emailAddress (body request) = Some "") →
  let err := RouterError StatusCode.ClientErrorBadRequest "InvalidParams" in
  post_subscribe request = Return (NextError err)
  ∧ httpResponse (NextError err) = Some (400%Z, [("error", "InvalidParams")])
  ∧ ∀ db, run (post_subscribe request) db = (Resolved (NextError err), db).
Proof.
  intros Hmissing err.
  assert (post_subscribe request = Return (NextError err)) as Hp.
  { apply post_subscribe_invalid. rewrite !truthy_None. exact Hmissing. }
  split; [done|]. split; [done|]. intros db. by rewrite Hp.
Qed.

(** C5: subscribing to a name under which no document is filed appends
    exactly one document, [{ newsletterId: l, subscribers: [e] }], and
    leaves every other document as it was. *)
Theorem subscribe_creates_list request l e db :
  carries request l e →
  connected db = true →
  (∀ d, d ∈ documents db → newsletterId d ≠ l) →
  run (post_subscribe request) db
  = (Resolved success,
     {| documents := documents db ++ [{| newsletterId := l; subscribers := [e] |}];
        connected := true |}).
Proof.
  intros Hv Hc Hnone.
  rewrite (run_post_subscribe_connected _ _ _ _ Hv Hc).
  rewrite findOneAndUpdate_documents_absent; [done|].
  by apply findOne_None.
Qed.

(** C7: a request with both fields usable whose storage call is answered
    gets status 200 and body [{ "status": "Success" }]. *)
Theorem subscribe_success_reply request l e db answer db' :
  carries request l e →
  execute (subscribeCall l e) db = (Resolved answer, db') →
  run (post_subscribe request) db = (Resolved success, db')
  ∧ httpResponse success = Some (200%Z, [("status", "Success")]).
Proof.
  intros Hv Hex. split; [|done].
  rewrite (post_subscribe_valid _ _ _ Hv). cbn. by rewrite Hex.
Qed.

(** C10: two requests carrying the same pair get the same reply, 200
    with [{ "status": "Success" }], whatever else their bodies hold and
    whatever the two databases held before, as long as the storage call
    is answered in both runs. *)
Theorem subscribe_reply_independent request1 request2 l e db1 db2 :
  carries request1 l e → carries request2 l e →
  connected db1 = true → connected db2 = true →
  (run (post_subscribe request1) db1).1 = (run (post_subscribe request2) db2).1
  ∧ (run (post_subscribe request1) db1).1 = Resolved success
  ∧ httpResponse success = Some (200%Z, [("status", "Success")]).
Proof.
  intros Hv1 Hv2 Hc1 Hc2.
  rewrite (run_post_subscribe_connected _ _ _ _ Hv1 Hc1).
  by rewrite (run_post_subscribe_connected _ _ _ _ Hv2 Hc2).
Qed.

End Subscribe.

(* ===================================================================== *)
(** * Properties of the origin check *)
(* ===================================================================== *)

Section OriginGate.

Context `{RegExpEngine}.
Implicit Types (cfg : NewsletterCors) (request : Request) (o : string).

Lemma regexPasses_true target patterns :
  regexPasses target patterns = true
  ↔ ∃ p, p ∈ patterns ∧ RegExp_test p target = true.
Proof.
  unfold regexPasses. rewrite existsb_exists.
  split; intros (p & Hp & Ht); exists p; split; try done;
    by apply list_elem_of_In.
Qed.

Lemma regexPasses_false target patterns :
  regexPasses target patterns = false
  ↔ ∀ p, p ∈ patterns → RegExp_test p target = false.
Proof.
  rewrite <- not_true_iff_false, regexPasses_true. split.
  - intros Hno p Hp. apply not_true_iff_false. intros Ht. apply Hno. eauto.
  - intros Hall (p & Hp & Ht). rewrite (Hall p Hp) in Ht. done.
Qed.

Lemma corsOptions_origin_falsy cfg (origin : option string) :
  truthy origin = None →
  corsOptions_origin cfg origin = Callback None (Some true).
Proof. intros Ht. unfold corsOptions_origin. by rewrite Ht. Qed.

Lemma corsOptions_origin_truthy cfg o :
  o ≠ "" →
  corsOptions_origin cfg (Some o) =
    if regexPasses o (allowedOrigins cfg)
    then Callback None (Some true)
    else Callback (Some (PlainError "Not allowed by CORS")) None.
Proof.
  intros Ho. unfold corsOptions_origin.
  by rewrite (proj2 (truthy_Some (Some o) o)).
Qed.

(** C6, as the code has it: a request whose [Origin] is absent or the
    empty string is allowed; a non-empty origin that matches at least
    one of the two rules is allowed, and the route handler is what runs;
    a non-empty origin that matches no rule gets the error, whatever the
    rest of the chain would have done. *)
Theorem origin_gate cfg request :
  (origin request = None ∨ origin request = Some "" →
     isAllowed cfg (origin request) = true
     ∧ newsletterRouter cfg request = post_subscribe request)
  ∧ (∀ o, origin request = Some o → o ≠ "" →
       (∃ p, p ∈ allowedOrigins cfg ∧ RegExp_test p o = true) →
       isAllowed cfg (origin request) = true
       ∧ newsletterRouter cfg request = post_subscribe request)
  ∧ (∀ o, origin request = Some o → o ≠ "" →
       (∀ p, p ∈ allowedOrigins cfg → RegExp_test p o = false) →
       isAllowed cfg (origin request) = false
       ∧ ∀ next, cors (corsOptions_origin cfg) request next
                 = Return (NextError (PlainError "Not allowed by CORS"))).
Proof.
  unfold isAllowed, newsletterRouter, cors. split; [|split].
  - intros Habsent%truthy_None.
    by rewrite (corsOptions_origin_falsy _ _ Habsent).
  - intros o -> Ho Hmatch%regexPasses_true.
    by rewrite (corsOptions_origin_truthy _ _ Ho), Hmatch.
  - intros o -> Ho Hnone%regexPasses_false.
    by rewrite (corsOptions_origin_truthy _ _ Ho), Hnone.
Qed.

End OriginGate.

(** The spec's three examples, on the sample configuration. *)
Lemma origin_gate_examples :
  @isAllowed MiniRegExp.engine sampleCors (Some "https://hackillinois.org") = true
  ∧ @isAllowed MiniRegExp.engine sampleCors (Some "https://evil.example.com") = false
  ∧ @isAllowed MiniRegExp.engine sampleCors None = true.
Proof. by vm_compute. Qed.

(** C6 as stated fails on a request whose [Origin] header is present and
    empty: it matches neither rule of the sample configuration, and it is
    allowed through to the route handler. *)
Lemma origin_gate_empty_origin :
  let request := sampleRequest (Some "") (Some "testingList") (Some "a@hackillinois.org") in
  origin request = Some ""
  ∧ (∀ p, p ∈ allowedOrigins sampleCors → MiniRegExp.test p "" = false)
  ∧ @isAllowed MiniRegExp.engine sampleCors (origin request) = true
  ∧ @newsletterRouter MiniRegExp.engine sampleCors request = post_subscribe request
  ∧ ¬ (∀ (engine : RegExpEngine) cfg (r : Request) o,
         origin r = Some o →
         (∀ p, p ∈ allowedOrigins cfg → RegExp_test p o = false) →
         isAllowed cfg (origin r) = false).
Proof.
  assert (∀ p, p ∈ allowedOrigins sampleCors → MiniRegExp.test p "" = false)
    as Hnomatch.
  { intros p Hp. unfold allowedOrigins in Hp.
    repeat (apply elem_of_cons in Hp as [-> | Hp]; [by vm_compute|]).
    by apply elem_of_nil in Hp. }
  split; [done|]. split; [done|]. split; [by vm_compute|].
  split; [by vm_compute|].
  intros Hclaim.
  specialize (Hclaim MiniRegExp.engine sampleCors
                (sampleRequest (Some "") None None) "" eq_refl Hnomatch).
  by vm_compute in Hclaim.
Qed.

(* ===================================================================== *)
(** * Nothing is ever removed *)
(* ===================================================================== *)

Section Monotone.

Implicit Types (f : FilterQuery) (u : UpdateQuery) (d : NewsletterSubscription)
  (docs before after : list NewsletterSubscription) (db : Database).

Lemma nothingRemoved_refl docs : nothingRemoved docs docs.
Proof. intros i d Hd. by exists d. Qed.

Lemma nothingRemoved_trans docs1 docs2 docs3 :
  nothingRemoved docs1 docs2 → nothingRemoved docs2 docs3 →
  nothingRemoved docs1 docs3.
Proof.
  intros H12 H23 i d1 Hd1.
  destruct (H12 i d1 Hd1) as (d2 & Hd2 & Hid12 & Hsub12).
  destruct (H23 i d2 Hd2) as (d3 & Hd3 & Hid23 & Hsub23).
  exists d3. split; [done|]. split; [congruence|set_solver].
Qed.

Lemma nothingRemoved_app docs extra : nothingRemoved docs (docs ++ extra).
Proof.
  intros i d Hd. exists d. split; [|done]. by apply lookup_app_l_Some.
Qed.

Lemma nothingRemoved_cons d d' before after :
  newsletterId d' = newsletterId d → subscribers d ⊆ subscribers d' →
  nothingRemoved before after →
  nothingRemoved (d :: before) (d' :: after).
Proof.
  intros Hid Hsub Hrest [|i] d0; cbn.
  - intros [= <-]. by exists d'.
  - apply Hrest.
Qed.

Lemma nothingRemoved_updateOne f u docs :
  nothingRemoved docs (updateOne f u docs).
Proof.
  induction docs as [|d docs IH]; cbn; [apply nothingRemoved_refl|].
  destruct (matchesFilter f d).
  - apply nothingRemoved_cons; [done|apply addToSet_subseteq|].
    apply nothingRemoved_refl.
  - by apply nothingRemoved_cons.
Qed.

Lemma nothingRemoved_findOneAndUpdate call docs :
  nothingRemoved docs (findOneAndUpdate_documents call docs).2.
Proof.
  unfold findOneAndUpdate_documents.
  destruct (findOne _ docs); cbn; [apply nothingRemoved_updateOne|].
  destruct (upsert _); cbn; [apply nothingRemoved_app|apply nothingRemoved_refl].
Qed.

Lemma nothingRemoved_execute call db :
  nothingRemoved (documents db) (documents (execute call db).2).
Proof.
  unfold execute. destruct (connected db); [|apply nothingRemoved_refl].
  pose proof (nothingRemoved_findOneAndUpdate call (documents db)) as Hmono.
  by destruct (findOneAndUpdate_documents _ _).
Qed.

(** Whatever a handler does, it only reaches the documents through the
    engine, so running it removes nothing. *)
Lemma nothingRemoved_run {A} (p : Program A) db :
  nothingRemoved (documents db) (documents (run p db).2).
Proof.
  revert db. induction p as [a|call resume IH]; intros db; cbn.
  - apply nothingRemoved_refl.
  - pose proof (nothingRemoved_execute call db) as Hex.
    destruct (execute call db) as [[answer|reason] db']; cbn in *; [|done].
    eapply nothingRemoved_trans; [exact Hex|apply IH].
Qed.

(** The list a name refers to stays the same document. *)
Lemma nothingRemoved_findOne f before after d :
  nothingRemoved before after →
  findOne f before = Some d →
  ∃ d', findOne f after = Some d' ∧ subscribers d ⊆ subscribers d'.
Proof.
  revert after. induction before as [|d0 before IH]; intros after Hmono; [done|].
  destruct (Hmono 0 d0 eq_refl) as (d0' & Hd0' & Hid & Hsub).
  destruct after as [|? after]; [done|]. cbn in Hd0'. injection Hd0' as ->.
  cbn. unfold matchesFilter. rewrite Hid.
  case_bool_decide.
  - intros [= <-]. by exists d0'.
  - apply IH. intros i. apply (Hmono (S i)).
Qed.

(** C8: along any sequence of requests served by the router, every
    document stays at its place under its [newsletterId] and keeps all of
    its subscribers; so every list that existed still exists and holds a
    superset of what it held. *)
Theorem core_never_removes `{RegExpEngine} (cfg : NewsletterCors) db db' :
  rtc (coreStep cfg) db db' →
  nothingRemoved (documents db) (documents db')
  ∧ ∀ l subs, subscribersOf l db = Some subs →
      ∃ subs', subscribersOf l db' = Some subs' ∧ subs ⊆ subs'.
Proof.
  intros Hsteps.
  assert (nothingRemoved (documents db) (documents db')) as Hmono.
  { induction Hsteps as [db|db1 db2 db3 [request <-] _ IH].
    - apply nothingRemoved_refl.
    - eapply nothingRemoved_trans; [|exact IH]. apply nothingRemoved_run. }
  split; [done|]. intros l subs. unfold subscribersOf.
  destruct (findOne _ (documents db)) as [d|] eqn:Hd; [|done].
  intros [= <-].
  destruct (nothingRemoved_findOne _ _ _ _ Hmono Hd) as (d' & -> & Hsub).
  by exists (subscribers d').
Qed.

End Monotone.

(* ===================================================================== *)
(** * Two subscribe calls at once *)
(* ===================================================================== *)

Section Concurrent.

Implicit Types (db : Database) (l e : string) (turns : list Turn) (s : Server).

(** Giving a task a turn and then letting it finish is the same as
    letting it finish: the turns cut the handler at its [await]. *)
Lemma finish_stepTask t db :
  finish (stepTask t db).1 (stepTask t db).2 = finish t db.
Proof.
  destruct t as [[r|call resume]|reason]; cbn; try done.
  by destruct (execute call db) as [[answer|reason] db'].
Qed.

Lemma subscribed_execute_new l e db :
  connected db = true → subscribed l e (execute (subscribeCall l e) db).2.
Proof.
  intros Hc. rewrite execute_resolved by done. cbn.
  destruct (findOneAndUpdate_documents_found l e (documents db))
    as (d & Hd & Hin & _).
  by exists d.
Qed.

Lemma subscribed_execute_kept l e call db :
  subscribed l e db → subscribed l e (execute call db).2.
Proof.
  intros (d & Hd & Hin).
  destruct (nothingRemoved_findOne _ _ _ _ (nothingRemoved_execute call db) Hd)
    as (d' & Hd' & Hsub).
  exists d'. split; [done|]. by apply Hsub.
Qed.

Lemma interleave_snoc turns turn s :
  interleave (turns ++ [turn]) s = serve (interleave turns s) turn.
Proof. unfold interleave. by rewrite foldl_app. Qed.

Lemma bool_decide_turn_snoc_ne (turn turn' : Turn) turns :
  turn ≠ turn' →
  bool_decide (turn ∈ turns ++ [turn']) = bool_decide (turn ∈ turns).
Proof.
  intros Hne. apply bool_decide_ext.
  rewrite elem_of_app, list_elem_of_singleton. intuition.
Qed.

Lemma bool_decide_turn_snoc_eq (turn : Turn) turns :
  bool_decide (turn ∈ turns ++ [turn]) = true.
Proof.
  apply bool_decide_eq_true_2.
  rewrite elem_of_app, list_elem_of_singleton. by right.
Qed.

(** Where the two handlers stand after any sequence of turns: a handler
    that has not had a turn still waits on its call; one that has had a
    turn has acknowledged, and its address is on the list. *)
Lemma interleave_progress l e1 e2 db turns :
  connected db = true →
  let waiting e := Active (Await (subscribeCall l e) (λ _, Return success)) in
  let s := interleave turns
             {| database := db; first := waiting e1; second := waiting e2 |} in
  connected (database s) = true
  ∧ (if bool_decide (First ∈ turns)
     then first s = Active (Return success) ∧ subscribed l e1 (database s)
     else first s = waiting e1)
  ∧ (if bool_decide (Second ∈ turns)
     then second s = Active (Return success) ∧ subscribed l e2 (database s)
     else second s = waiting e2).
Proof.
  intros Hc waiting. induction turns as [|turn turns IH] using rev_ind.
  - cbn. split; [done|]. split; rewrite bool_decide_eq_false_2; try done;
      apply not_elem_of_nil.
  - cbn zeta in *. rewrite interleave_snoc.
    destruct IH as (Hconn & Hfirst & Hsecond).
    set (s := interleave turns _) in *.
    destruct turn; unfold serve.
    + (* the first handler gets the turn *)
      rewrite bool_decide_turn_snoc_eq, bool_decide_turn_snoc_ne by done.
      destruct (bool_decide (First ∈ turns)).
      * destruct Hfirst as [Hfirst Hsub1]. rewrite Hfirst. by cbn.
      * rewrite Hfirst. unfold waiting at 1. cbn.
        pose proof (subscribed_execute_new l e1 _ Hconn) as Hnew.
        assert (∀ e, subscribed l e (database s) →
                     subscribed l e (execute (subscribeCall l e1) (database s)).2)
          as Hkept by (intros e; apply subscribed_execute_kept).
        rewrite (execute_resolved _ _ Hconn) in *. cbn in *.
        split; [done|]. split; [done|].
        destruct (bool_decide (Second ∈ turns)); [|done].
        destruct Hsecond as [Hsecond Hsub2]. auto.
    + (* the second handler gets the turn *)
      rewrite bool_decide_turn_snoc_eq, bool_decide_turn_snoc_ne by done.
      destruct (bool_decide (Second ∈ turns)).
      * destruct Hsecond as [Hsecond Hsub2]. rewrite Hsecond. by cbn.
      * rewrite Hsecond. unfold waiting at 1. cbn.
        pose proof (subscribed_execute_new l e2 _ Hconn) as Hnew.
        assert (∀ e, subscribed l e (database s) →
                     subscribed l e (execute (subscribeCall l e2) (database s)).2)
          as Hkept by (intros e; apply subscribed_execute_kept).
        rewrite (execute_resolved _ _ Hconn) in *. cbn in *.
        split; [done|]. split; [|done].
        destruct (bool_decide (First ∈ turns)); [|done].
        destruct Hfirst as [Hfirst Hsub1]. auto.
Qed.

(** C3: two subscribe calls for the same list with different
    addresses.  Each handler is a single storage call followed by the
    acknowledgement, and the engine executes a call in one piece; so in
    whatever order the event loop gives the turns, once each handler has
    had its turn both have acknowledged with success and the list holds
    both addresses. *)
Theorem concurrent_subscribe_keeps_both request1 request2 l e1 e2 db turns :
  carries request1 l e1 → carries request2 l e2 → e1 ≠ e2 →
  connected db = true →
  First ∈ turns → Second ∈ turns →
  let s := interleave turns (accept db request1 request2) in
  post_subscribe request1 = Await (subscribeCall l e1) (λ _, Return success)
  ∧ post_subscribe request2 = Await (subscribeCall l e2) (λ _, Return success)
  ∧ outcome (first s) = Some (Resolved success)
  ∧ outcome (second s) = Some (Resolved success)
  ∧ ∃ d, findOne {| filter_newsletterId := l |} (documents (database s)) = Some d
         ∧ e1 ∈ subscribers d ∧ e2 ∈ subscribers d.
Proof.
  intros Hv1 Hv2 _ Hc Hin1 Hin2. unfold accept.
  rewrite (post_subscribe_valid _ _ _ Hv1), (post_subscribe_valid _ _ _ Hv2).
  split; [done|]. split; [done|].
  destruct (interleave_progress l e1 e2 db turns Hc) as (_ & Hfirst & Hsecond).
  rewrite bool_decide_eq_true_2 in Hfirst, Hsecond by done.
  destruct Hfirst as [-> (d1 & Hd1 & He1)], Hsecond as [-> (d2 & Hd2 & He2)].
  cbn. split; [done|]. split; [done|].
  exists d1. rewrite Hd1 in Hd2. injection Hd2 as ->. done.
Qed.

End Concurrent.

(* ===================================================================== *)
(** * The theorems on concrete requests *)
(* ===================================================================== *)

(** The spec's end-to-end example: the same subscription sent twice is
    acknowledged twice and leaves one subscriber on [testingList]. *)
Lemma subscribe_end_to_end :
  let r := sampleRequest None (Some "testingList") (Some "a@hackillinois.org") in
  let '(reply1, db1) := run (post_subscribe r) emptyDatabase in
  let '(reply2, db2) := run (post_subscribe r) db1 in
  reply1 = Resolved success ∧ reply2 = Resolved success
  ∧ subscribersOf "testingList" db2 = Some ["a@hackillinois.org"].
Proof. by vm_compute. Qed.

Lemma sampleRequest_carries o l e :
  l ≠ "" → e ≠ "" → carries (sampleRequest o (Some l) (Some e)) l e.
Proof. intros Hl He. by repeat split. Defined.

Lemma getModel_register_witness :
  (∅ : gmap string Model) !! storageIdentifier Group.AUTH "info" = None
  ∧ ∃ h, getModel ModelClass.AuthInfo Group.AUTH "info" ∅
         = (h, <[storageIdentifier Group.AUTH "info" := h]> ∅)
       ∧ modelCollection h = storageIdentifier Group.AUTH "info"
       ∧ modelVersionKey h = VersionKeyFlag false
       ∧ modelOf h = ModelClass.AuthInfo.
Proof.
  split; [apply lookup_empty|].
  apply (getModel_register ModelClass.AuthInfo Group.AUTH "info" ∅).
  apply lookup_empty.
Defined.

Lemma subscribe_twice_same_size_witness :
  let r := sampleRequest None (Some "testingList") (Some "a@hackillinois.org") in
  let db1 := (run (post_subscribe r) emptyDatabase).2 in
  let db2 := (run (post_subscribe r) db1).2 in
  carries r "testingList" "a@hackillinois.org"
  ∧ documents db2 = documents db1
  ∧ length <$> subscribersOf "testingList" db2
    = length <$> subscribersOf "testingList" db1
  ∧ (connected emptyDatabase = true →
     subscribed "testingList" "a@hackillinois.org" db1
     ∧ subscribed "testingList" "a@hackillinois.org" db2).
Proof.
  intros r db1 db2.
  assert (carries r "testingList" "a@hackillinois.org") as Hv
    by (by apply sampleRequest_carries).
  split; [exact Hv|].
  exact (subscribe_twice_same_size r r _ _ emptyDatabase Hv Hv).
Defined.

Lemma subscribe_invalid_params_witness :
  let r := sampleRequest None (Some "testingList") (Some "") in
  let err := RouterError StatusCode.ClientErrorBadRequest "InvalidParams" in
  emailAddress (body r) = Some ""
  ∧ post_subscribe r = Return (NextError err)
  ∧ httpResponse (NextError err) = Some (400%Z, [("error", "InvalidParams")])
  ∧ ∀ db, run (post_subscribe r) db = (Resolved (NextError err), db).
Proof.
  intros r err. split; [reflexivity|].
  apply (subscribe_invalid_params r). right. right. reflexivity.
Defined.

Lemma concurrent_subscribe_keeps_both_witness :
  let r1 := sampleRequest None (Some "testingList") (Some "a@hackillinois.org") in
  let r2 := sampleRequest None (Some "testingList") (Some "b@hackillinois.org") in
  let s := interleave [Second; First] (accept emptyDatabase r1 r2) in
  (First ∈ [Second; First] ∧ Second ∈ [Second; First])
  ∧ post_subscribe r1
    = Await (subscribeCall "testingList" "a@hackillinois.org") (λ _, Return success)
  ∧ post_subscribe r2
    = Await (subscribeCall "testingList" "b@hackillinois.org") (λ _, Return success)
  ∧ outcome (first s) = Some (Resolved success)
  ∧ outcome (second s) = Some (Resolved success)
  ∧ ∃ d, findOne {| filter_newsletterId := "testingList" |}
           (documents (database s)) = Some d
         ∧ "a@hackillinois.org" ∈ subscribers d
         ∧ "b@hackillinois.org" ∈ subscribers d.
Proof.
  intros r1 r2 s.
  assert (First ∈ [Second; First]) as H1 by (right; left).
  assert (Second ∈ [Second; First]) as H2 by left.
  split; [by split|].
  apply (concurrent_subscribe_keeps_both r1 r2 "testingList"
           "a@hackillinois.org" "b@hackillinois.org" emptyDatabase
           [Second; First]); done.
Defined.

Lemma subscribe_creates_list_witness :
  let r := sampleRequest None (Some "testingList") (Some "a@hackillinois.org") in
  let db := {| documents := [{| newsletterId := "alumni"; subscribers := ["z@hackillinois.org"] |}];
               connected := true |} in
  (∀ d, d ∈ documents db → newsletterId d ≠ "testingList")
  ∧ run (post_subscribe r) db
    = (Resolved success,
       {| documents := documents db
            ++ [{| newsletterId := "testingList"; subscribers := ["a@hackillinois.org"] |}];
          connected := true |}).
Proof.
  intros r db.
  assert (∀ d, d ∈ documents db → newsletterId d ≠ "testingList") as Hfree.
  { intros d [-> | Hd]%elem_of_cons; [done|]. by apply elem_of_nil in Hd. }
  split; [exact Hfree|].
  apply (subscribe_creates_list r "testingList" "a@hackillinois.org" db);
    [by apply sampleRequest_carries|reflexivity|exact Hfree].
Defined.

Lemma origin_gate_witness :
  let r := sampleRequest (Some "https://evil.example.com")
             (Some "testingList") (Some "a@hackillinois.org") in
  (∀ p, p ∈ allowedOrigins sampleCors →
        MiniRegExp.test p "https://evil.example.com" = false)
  ∧ @isAllowed MiniRegExp.engine sampleCors (origin r) = false
  ∧ ∀ next, cors (@corsOptions_origin MiniRegExp.engine sampleCors) r next
            = Return (NextError (PlainError "Not allowed by CORS")).
Proof.
  intros r.
  assert (∀ p, p ∈ allowedOrigins sampleCors →
               MiniRegExp.test p "https://evil.example.com" = false) as Hnomatch.
  { intros p Hp. unfold allowedOrigins in Hp.
    repeat (apply elem_of_cons in Hp as [-> | Hp]; [by vm_compute|]).
    by apply elem_of_nil in Hp. }
  split; [exact Hnomatch|].
  apply (proj2 (proj2 (@origin_gate MiniRegExp.engine sampleCors r))
           "https://evil.example.com"); [reflexivity|done|exact Hnomatch].
Defined.

Lemma subscribe_success_reply_witness :
  let r := sampleRequest None (Some "testingList") (Some "a@hackillinois.org") in
  let db' := {| documents := [{| newsletterId := "testingList";
                                 subscribers := ["a@hackillinois.org"] |}];
                connected := true |} in
  execute (subscribeCall "testingList" "a@hackillinois.org") emptyDatabase
    = (Resolved None, db')
  ∧ run (post_subscribe r) emptyDatabase = (Resolved success, db')
  ∧ httpResponse success = Some (200%Z, [("status", "Success")]).
Proof.
  intros r db'. split; [reflexivity|].
  apply (subscribe_success_reply r "testingList" "a@hackillinois.org"
           emptyDatabase None db'); [by apply sampleRequest_carries|reflexivity].
Defined.

Lemma core_never_removes_witness :
  let r := sampleRequest (Some "https://hackillinois.org")
             (Some "testingList") (Some "b@hackillinois.org") in
  let db := {| documents := [{| newsletterId := "testingList";
                                subscribers := ["a@hackillinois.org"] |}];
               connected := true |} in
  let db' := {| documents := [{| newsletterId := "testingList";
                                 subscribers := ["a@hackillinois.org"; "b@hackillinois.org"] |}];
                connected := true |} in
  rtc (@coreStep MiniRegExp.engine sampleCors) db db'
  ∧ nothingRemoved (documents db) (documents db')
  ∧ ∀ l subs, subscribersOf l db = Some subs →
      ∃ subs', subscribersOf l db' = Some subs' ∧ subs ⊆ subs'.
Proof.
  intros r db db'.
  assert (rtc (@coreStep MiniRegExp.engine sampleCors) db db') as Hsteps.
  { apply rtc_once. exists r. reflexivity. }
  split; [exact Hsteps|].
  exact (@core_never_removes MiniRegExp.engine sampleCors db db' Hsteps).
Defined.

Lemma subscribe_reply_independent_witness :
  let r1 := sampleRequest None (Some "testingList") (Some "a@hackillinois.org") in
  let r2 := {| origin := Some "https://hackillinois.org";
               body := {| listName := Some "testingList";
                          emailAddress := Some "a@hackillinois.org";
                          otherFields := [("referrer", "homepage")] |} |} in
  let db2 := {| documents := [{| newsletterId := "testingList";
                                 subscribers := ["a@hackillinois.org"] |}];
                connected := true |} in
  (connected emptyDatabase = true ∧ connected db2 = true)
  ∧ (run (post_subscribe r1) emptyDatabase).1 = (run (post_subscribe r2) db2).1
  ∧ (run (post_subscribe r1) emptyDatabase).1 = Resolved success
  ∧ httpResponse success = Some (200%Z, [("status", "Success")]).
Proof.
  intros r1 r2 db2. split; [by split|].
  apply (subscribe_reply_independent r1 r2 "testingList" "a@hackillinois.org"
           emptyDatabase db2); try reflexivity.
  - by apply sampleRequest_carries.
  - by repeat split.
Defined.

(* ===================================================================== *)
(** * Further properties of the registry *)
(* ===================================================================== *)

(** X1: no group value is a prefix of another one followed by the
    separator, so the identifier determines the group and the tag,
    whatever the tag is (it may itself contain the separator). *)
Theorem storageIdentifier_inj (group1 group2 : Group.t) (tag1 tag2 : string) :
  storageIdentifier group1 tag1 = storageIdentifier group2 tag2 →
  group1 = group2 ∧ tag1 = tag2.
Proof.
  unfold storageIdentifier.
  destruct group1, group2; cbn; intros Heq; by simplify_eq.
Qed.

Lemma storageIdentifier_inj_witness :
  storageIdentifier Group.EVENT "attendance" = storageIdentifier Group.EVENT "attendance"
  ∧ Group.EVENT = Group.EVENT ∧ "attendance" = "attendance".
Proof.
  split; [reflexivity|].
  apply (storageIdentifier_inj Group.EVENT Group.EVENT "attendance" "attendance").
  reflexivity.
Defined.

(* ===================================================================== *)
(** * Further properties of the subscribe handler *)
(* ===================================================================== *)

Section SubscribeEffect.

Implicit Types (f : FilterQuery) (u : UpdateQuery) (d : NewsletterSubscription)
  (docs : list NewsletterSubscription) (request : Request) (db : Database)
  (l e : string) (arr : list string).

(** A request either carries a pair or has a missing or empty field. *)
Lemma carries_or_missing request :
  (∃ l e, carries request l e)
  ∨ truthy (listName (body request)) = None
  ∨ truthy (emailAddress (body request)) = None.
Proof.
  destruct (truthy (listName (body request))) as [l|] eqn:Hl; [|by auto].
  destruct (truthy (emailAddress (body request))) as [e|] eqn:He; [|by auto].
  left. exists l, e. apply truthy_Some in Hl as [? ?], He as [? ?].
  by repeat split.
Qed.

(** X2: all the handler can do.  A request with a missing or empty field is
    answered with the 400 error and the database is not touched.  Any
    other request is answered with the acknowledgement if the storage
    call is answered, and fails without a reply and without a change to
    the database if it is not.  No other reply exists; the [ListNotFound]
    error of the route's documentation is never produced. *)
Theorem post_subscribe_outcomes request db :
  ((listName (body request) = None ∨ listName (body request) = Some ""
    ∨ emailAddress (body request) = None ∨ emailAddress (body request) = Some "")
   ∧ run (post_subscribe request) db
     = (Resolved (NextError (RouterError StatusCode.ClientErrorBadRequest "InvalidParams")), db))
  ∨ (∃ l e, carries request l e
      ∧ ((connected db = true
          ∧ run (post_subscribe request) db
            = (Resolved success,
               {| documents := (findOneAndUpdate_documents (subscribeCall l e)
                                  (documents db)).2;
                  connected := true |}))
         ∨ (connected db = false
            ∧ ∃ reason, run (post_subscribe request) db = (Rejected reason, db)))).
Proof.
  destruct (carries_or_missing request) as [(l & e & Hv) | Hmissing].
  - right. exists l, e. split; [done|].
    destruct (connected db) eqn:Hc.
    + left. split; [done|]. by apply run_post_subscribe_connected.
    + right. split; [done|]. eexists.
      by apply (run_post_subscribe_unreachable _ l e).
  - left. split.
    + rewrite !truthy_None in Hmissing. tauto.
    + by rewrite (post_subscribe_invalid _ Hmissing).
Qed.

Lemma findOne_updateOne_other f f' u docs :
  filter_newsletterId f ≠ filter_newsletterId f' →
  findOne f' (updateOne f u docs) = findOne f' docs.
Proof.
  intros Hne. induction docs as [|d docs IH]; cbn; [done|].
  destruct (matchesFilter f d) eqn:Hm; cbn.
  - rewrite matchesFilter_applyUpdate.
    assert (matchesFilter f' d = false) as ->; [|done].
    unfold matchesFilter in *. apply bool_decide_eq_true in Hm.
    apply bool_decide_eq_false. congruence.
  - by rewrite IH.
Qed.

Lemma findOne_app_other f' docs d :
  newsletterId d ≠ filter_newsletterId f' →
  findOne f' (docs ++ [d]) = findOne f' docs.
Proof.
  intros Hne. induction docs as [|d0 docs IH]; cbn.
  - unfold matchesFilter. by rewrite bool_decide_eq_false_2.
  - by rewrite IH.
Qed.

Lemma length_updateOne f u docs : length (updateOne f u docs) = length docs.
Proof.
  induction docs as [|d docs IH]; cbn; [done|].
  destruct (matchesFilter f d); cbn; by rewrite ?IH.
Qed.

(** The storage call seen through the list names: the named list gets
    the address added (starting from no subscribers when the list did
    not exist), and the list under any other name is what it was. *)
Lemma subscribersOf_findOneAndUpdate l e docs l0 connected0 connected1 :
  subscribersOf l0
    {| documents := (findOneAndUpdate_documents (subscribeCall l e) docs).2;
       connected := connected1 |}
  = if decide (l0 = l)
    then Some (addToSet e (default [] (subscribersOf l
                 {| documents := docs; connected := connected0 |})))
    else subscribersOf l0 {| documents := docs; connected := connected0 |}.
Proof.
  unfold subscribersOf. cbn.
  destruct (findOne {| filter_newsletterId := l |} docs) as [d|] eqn:Hf.
  - rewrite (findOneAndUpdate_documents_present _ _ _ _ Hf). cbn.
    destruct (decide (l0 = l)) as [->|Hne].
    + by rewrite (findOne_updateOne _ _ _ _ Hf).
    + by rewrite findOne_updateOne_other by (cbn; congruence).
  - rewrite (findOneAndUpdate_documents_absent _ _ _ Hf). cbn.
    destruct (decide (l0 = l)) as [->|Hne].
    + rewrite findOne_app_r by done. cbn. unfold matchesFilter. cbn.
      by rewrite bool_decide_eq_true_2.
    + by rewrite findOne_app_other by (cbn; congruence).
Qed.

(** X3: what an answered subscribe does to every list: under the request's
    name the address is added with set semantics, at the end of the
    array when it is new, and a list that did not exist starts from no
    subscribers; under every other name nothing changes. *)
Theorem subscribe_effect_by_name request l e db l0 :
  carries request l e → connected db = true →
  subscribersOf l0 (run (post_subscribe request) db).2
  = if decide (l0 = l)
    then Some (let before := default [] (subscribersOf l db) in
               if bool_decide (e ∈ before) then before else before ++ [e])
    else subscribersOf l0 db.
Proof.
  intros Hv Hc. rewrite (run_post_subscribe_connected _ _ _ _ Hv Hc).
  cbn [snd].
  rewrite (subscribersOf_findOneAndUpdate l e (documents db) l0 (connected db) true).
  by destruct db.
Qed.

(** X4: an answered subscribe adds one document when the name was not filed
    and none when it was; it never adds more and never drops one. *)
Theorem subscribe_document_count request l e db :
  carries request l e → connected db = true →
  length (documents (run (post_subscribe request) db).2)
  = length (documents db)
    + match subscribersOf l db with Some _ => 0 | None => 1 end.
Proof.
  intros Hv Hc. rewrite (run_post_subscribe_connected _ _ _ _ Hv Hc). cbn.
  unfold subscribersOf.
  destruct (findOne {| filter_newsletterId := l |} (documents db)) as [d|] eqn:Hf.
  - rewrite (findOneAndUpdate_documents_present _ _ _ _ Hf). cbn.
    rewrite length_updateOne. lia.
  - rewrite (findOneAndUpdate_documents_absent _ _ _ Hf). cbn.
    by rewrite length_app.
Qed.

End SubscribeEffect.

(* ===================================================================== *)
(** * The collection stays well formed *)
(* ===================================================================== *)

Section WellFormed.

Implicit Types (f : FilterQuery) (u : UpdateQuery) (d : NewsletterSubscription)
  (docs : list NewsletterSubscription) (db : Database) (arr : list string).

Lemma NoDup_addToSet (v : string) arr : NoDup arr → NoDup (addToSet v arr).
Proof.
  intros Hnd. unfold addToSet. case_bool_decide as Hin; [done|].
  apply NoDup_app. split; [done|]. split; [|apply NoDup_singleton].
  intros x Hx ->%list_elem_of_singleton. done.
Qed.

Lemma newsletterId_updateOne f u docs :
  newsletterId <$> updateOne f u docs = newsletterId <$> docs.
Proof.
  induction docs as [|d docs IH]; cbn; [done|].
  destruct (matchesFilter f d); cbn; by rewrite ?IH.
Qed.

Lemma elem_of_updateOne f u docs d' :
  d' ∈ updateOne f u docs →
  d' ∈ docs ∨ ∃ d, d ∈ docs ∧ d' = applyUpdate u d.
Proof.
  induction docs as [|d docs IH]; cbn; [by left|].
  destruct (matchesFilter f d).
  - intros [-> | Hin]%elem_of_cons.
    + right. exists d. split; [left|done].
    + left. by right.
  - intros [-> | Hin]%elem_of_cons; [left; left|].
    destruct (IH Hin) as [Hold | (d0 & Hd0 & ->)].
    + left. by right.
    + right. exists d0. split; [by right|done].
Qed.

Lemma wellFormed_findOneAndUpdate call docs :
  wellFormed docs → wellFormed (findOneAndUpdate_documents call docs).2.
Proof.
  intros [Hids Hsubs]. unfold findOneAndUpdate_documents.
  destruct (findOne (call_filter call) docs) as [d0|] eqn:Hf; cbn.
  - split; [by rewrite newsletterId_updateOne|].
    intros d' [Hold | (d & Hd & ->)]%elem_of_updateOne; [by apply Hsubs|].
    cbn. apply NoDup_addToSet. by apply Hsubs.
  - destruct (upsert (call_options call)); cbn; [|done]. split.
    + rewrite fmap_app. cbn. apply NoDup_app. split; [done|].
      split; [|apply NoDup_singleton].
      intros x (d & Hx & Hd)%list_elem_of_fmap Hx'%list_elem_of_singleton.
      apply (proj1 (findOne_None _ _) Hf d Hd). congruence.
    + intros d [Hold | ->%list_elem_of_singleton]%elem_of_app; [by apply Hsubs|].
      cbn. apply NoDup_addToSet, NoDup_nil_2.
Qed.

Lemma wellFormed_execute call db :
  wellFormed (documents db) → wellFormed (documents (execute call db).2).
Proof.
  intros Hwf. unfold execute. destruct (connected db); [|done].
  pose proof (wellFormed_findOneAndUpdate call _ Hwf) as Hwf'.
  by destruct (findOneAndUpdate_documents _ _).
Qed.

Lemma wellFormed_run {A} (p : Program A) db :
  wellFormed (documents db) → wellFormed (documents (run p db).2).
Proof.
  revert db. induction p as [a|call resume IH]; intros db Hwf; cbn; [done|].
  pose proof (wellFormed_execute call db Hwf) as Hex.
  destruct (execute call db) as [[answer|reason] db']; cbn in *; [|done].
  by apply IH.
Qed.

(** X5: served only through the router, a collection in which every list
    name is filed once and no list holds an address twice stays that
    way, whatever requests arrive and whether or not they are allowed,
    valid or answered. *)
Theorem wellFormed_preserved `{RegExpEngine} (cfg : NewsletterCors) db db' :
  rtc (coreStep cfg) db db' →
  wellFormed (documents db) → wellFormed (documents db').
Proof.
  intros Hsteps. induction Hsteps as [db|db1 db2 db3 [request <-] _ IH]; [done|].
  intros Hwf. apply IH. by apply wellFormed_run.
Qed.

End WellFormed.

Lemma wellFormed_preserved_witness :
  let r1 := sampleRequest None (Some "testingList") (Some "a@hackillinois.org") in
  let r2 := sampleRequest (Some "https://hackillinois.org")
              (Some "testingList") (Some "a@hackillinois.org") in
  let db' := {| documents := [{| newsletterId := "testingList";
                                 subscribers := ["a@hackillinois.org"] |}];
                connected := true |} in
  (rtc (@coreStep MiniRegExp.engine sampleCors) emptyDatabase db'
   ∧ wellFormed (documents emptyDatabase))
  ∧ wellFormed (documents db').
Proof.
  intros r1 r2 db'.
  assert (rtc (@coreStep MiniRegExp.engine sampleCors) emptyDatabase db') as Hsteps.
  { apply (rtc_l _ _ db'); [by exists r1|]. apply rtc_once. by exists r2. }
  assert (wellFormed (documents emptyDatabase)) as Hwf.
  { split; [apply NoDup_nil_2|]. intros d Hd. by apply elem_of_nil in Hd. }
  split; [by split|].
  exact (@wellFormed_preserved MiniRegExp.engine sampleCors emptyDatabase db' Hsteps Hwf).
Defined.

(* ===================================================================== *)
(** * The order of two subscriptions *)
(* ===================================================================== *)

Section Order.

Implicit Types (request : Request) (db : Database) (l e v w : string)
  (arr : list string).


Lemma run_two_subscribes request1 request2 l1 e1 l2 e2 db :
  carries request1 l1 e1 → carries request2 l2 e2 → connected db = true →
  (run (post_subscribe request2) (run (post_subscribe request1) db).2).2
  = {| documents :=
         (findOneAndUpdate_documents (subscribeCall l2 e2)
            (findOneAndUpdate_documents (subscribeCall l1 e1) (documents db)).2).2;
       connected := true |}.
Proof.
  intros Hv1 Hv2 Hc. rewrite (run_post_subscribe_connected _ _ _ _ Hv1 Hc).
  cbn [snd]. by rewrite (run_post_subscribe_connected _ _ _ _ Hv2).
Qed.


End Order.


(* ===================================================================== *)
(** * Every interleaving is a serial order *)
(* ===================================================================== *)

Section Serial.

Implicit Types (p q : Program Reply) (db : Database) (turns : list Turn)
  (s : Server) (t : Task).

Lemma post_subscribe_oneCall (request : Request) : oneCall (post_subscribe request).
Proof.
  destruct (carries_or_missing request) as [(l & e & Hv) | Hmissing].
  - right. do 2 eexists. by apply post_subscribe_valid.
  - left. eexists. by apply post_subscribe_invalid.
Qed.

(** One turn is all a handler with a single call needs. *)
Lemma stepTask_oneCall p db :
  oneCall p →
  outcome (stepTask (Active p) db).1 = Some (run p db).1
  ∧ (stepTask (Active p) db).2 = (run p db).2.
Proof.
  intros [(reply & ->) | (call & reply & ->)]; cbn; [done|].
  by destruct (execute call db) as [[answer|reason] db'].
Qed.

(** A further turn given to a finished handler does nothing. *)
Lemma stepTask_finished t db o :
  outcome t = Some o → stepTask t db = (t, db).
Proof. by destruct t as [[reply|call resume]|reason]. Qed.

Lemma serve_First s :
  serve s First
  = {| database := (stepTask (first s) (database s)).2;
       first := (stepTask (first s) (database s)).1;
       second := second s |}.
Proof. unfold serve. by destruct (stepTask _ _). Qed.

Lemma serve_Second s :
  serve s Second
  = {| database := (stepTask (second s) (database s)).2;
       first := first s;
       second := (stepTask (second s) (database s)).1 |}.
Proof. unfold serve. by destruct (stepTask _ _). Qed.

(** Where two single-call handlers stand after any sequence of turns. *)
Lemma interleave_serial p q db turns :
  oneCall p → oneCall q →
  let s := interleave turns {| database := db; first := Active p; second := Active q |} in
  match bool_decide (First ∈ turns), bool_decide (Second ∈ turns) with
  | false, false =>
      s = {| database := db; first := Active p; second := Active q |}
  | true, false =>
      outcome (first s) = Some (run p db).1
      ∧ database s = (run p db).2 ∧ second s = Active q
  | false, true =>
      outcome (second s) = Some (run q db).1
      ∧ database s = (run q db).2 ∧ first s = Active p
  | true, true =>
      (outcome (first s) = Some (run p db).1
       ∧ outcome (second s) = Some (run q (run p db).2).1
       ∧ database s = (run q (run p db).2).2)
      ∨ (outcome (second s) = Some (run q db).1
         ∧ outcome (first s) = Some (run p (run q db).2).1
         ∧ database s = (run p (run q db).2).2)
  end.
Proof.
  intros Hp Hq. induction turns as [|turn turns IH] using rev_ind.
  - cbn zeta. rewrite !bool_decide_eq_false_2 by apply not_elem_of_nil. done.
  - cbn zeta in *. rewrite interleave_snoc.
    set (s := interleave turns _) in *.
    destruct turn.
    + rewrite bool_decide_turn_snoc_eq, bool_decide_turn_snoc_ne by done.
      rewrite serve_First. cbn [first second database].
      destruct (bool_decide (First ∈ turns)), (bool_decide (Second ∈ turns)).
      * destruct IH as [(H1 & H2 & Hdb) | (H2 & H1 & Hdb)];
          rewrite (stepTask_finished _ _ _ H1); cbn; auto.
      * destruct IH as (H1 & Hdb & H2).
        rewrite (stepTask_finished _ _ _ H1). by cbn.
      * destruct IH as (H2 & Hdb & H1). rewrite H1, Hdb.
        destruct (stepTask_oneCall p (run q db).2 Hp) as [Ho Hd].
        right. by rewrite Ho, Hd.
      * rewrite IH. cbn [first second database].
        destruct (stepTask_oneCall p db Hp) as [Ho Hd]. by rewrite Ho, Hd.
    + rewrite bool_decide_turn_snoc_eq, bool_decide_turn_snoc_ne by done.
      rewrite serve_Second. cbn [first second database].
      destruct (bool_decide (First ∈ turns)), (bool_decide (Second ∈ turns)).
      * destruct IH as [(H1 & H2 & Hdb) | (H2 & H1 & Hdb)];
          rewrite (stepTask_finished _ _ _ H2); cbn; auto.
      * destruct IH as (H1 & Hdb & H2). rewrite H2, Hdb.
        destruct (stepTask_oneCall q (run p db).2 Hq) as [Ho Hd].
        left. by rewrite Ho, Hd.
      * destruct IH as (H2 & Hdb & H1).
        rewrite (stepTask_finished _ _ _ H2). by cbn.
      * rewrite IH. cbn [first second database].
        destruct (stepTask_oneCall q db Hq) as [Ho Hd]. by rewrite Ho, Hd.
Qed.

(** X7: two requests served at once, whatever they carry and whether or not
    the backend answers: once each handler has had a turn, the replies
    and the database are those of serving the two requests one after the
    other, in one of the two orders. *)
Theorem interleave_serializable (request1 request2 : Request) db turns :
  First ∈ turns → Second ∈ turns →
  let s := interleave turns (accept db request1 request2) in
  ∃ o1 o2,
    outcome (first s) = Some o1 ∧ outcome (second s) = Some o2
    ∧ ((o1, o2, database s)
         = serial db (post_subscribe request1) (post_subscribe request2)
       ∨ (o2, o1, database s)
         = serial db (post_subscribe request2) (post_subscribe request1)).
Proof.
  intros Hin1 Hin2 s. subst s. unfold accept.
  pose proof (interleave_serial _ _ db turns
                (post_subscribe_oneCall request1) (post_subscribe_oneCall request2))
    as Hser.
  cbn zeta in Hser. rewrite !bool_decide_eq_true_2 in Hser by done.
  unfold serial.
  destruct Hser as [(H1 & H2 & Hdb) | (H2 & H1 & Hdb)].
  - do 2 eexists. split; [exact H1|]. split; [exact H2|]. left.
    rewrite Hdb. destruct (run (post_subscribe request1) db) as [r1 db1]. cbn.
    by destruct (run (post_subscribe request2) db1).
  - do 2 eexists. split; [exact H1|]. split; [exact H2|]. right.
    rewrite Hdb. destruct (run (post_subscribe request2) db) as [r2 db2]. cbn.
    by destruct (run (post_subscribe request1) db2).
Qed.

(** X8: the same subscription sent twice at once is stored once: after any
    interleaving in which both handlers had a turn, the documents are
    those a single subscribe leaves. *)
Theorem concurrent_duplicate_subscribe (request1 request2 : Request) l e db turns :
  carries request1 l e → carries request2 l e → connected db = true →
  First ∈ turns → Second ∈ turns →
  documents (database (interleave turns (accept db request1 request2)))
  = documents (run (post_subscribe request1) db).2.
Proof.
  intros Hv1 Hv2 Hc Hin1 Hin2. unfold accept.
  pose proof (interleave_serial _ _ db turns
                (post_subscribe_oneCall request1) (post_subscribe_oneCall request2))
    as Hser.
  cbn zeta in Hser. rewrite !bool_decide_eq_true_2 in Hser by done.
  destruct Hser as [(_ & _ & ->) | (_ & _ & ->)].
  - rewrite (run_two_subscribes _ _ _ _ _ _ _ Hv1 Hv2 Hc).
    rewrite (run_post_subscribe_connected _ _ _ _ Hv1 Hc). cbn.
    apply findOneAndUpdate_documents_idemp.
  - rewrite (run_two_subscribes _ _ _ _ _ _ _ Hv2 Hv1 Hc).
    rewrite (run_post_subscribe_connected _ _ _ _ Hv1 Hc). cbn.
    apply findOneAndUpdate_documents_idemp.
Qed.

End Serial.

Lemma interleave_serializable_witness :
  let r1 := sampleRequest None (Some "testingList") (Some "a@hackillinois.org") in
  let r2 := sampleRequest None (Some "") (Some "b@hackillinois.org") in
  let turns := [Second; First; Second] in
  let s := interleave turns (accept emptyDatabase r1 r2) in
  (First ∈ turns ∧ Second ∈ turns)
  ∧ ∃ o1 o2,
      outcome (first s) = Some o1 ∧ outcome (second s) = Some o2
      ∧ ((o1, o2, database s)
           = serial emptyDatabase (post_subscribe r1) (post_subscribe r2)
         ∨ (o2, o1, database s)
           = serial emptyDatabase (post_subscribe r2) (post_subscribe r1)).
Proof.
  intros r1 r2 turns s.
  assert (First ∈ turns) as H1 by (right; left).
  assert (Second ∈ turns) as H2 by left.
  split; [by split|].
  exact (interleave_serializable r1 r2 emptyDatabase turns H1 H2).
Defined.

Lemma concurrent_duplicate_subscribe_witness :
  let r := sampleRequest None (Some "testingList") (Some "a@hackillinois.org") in
  let turns := [First; Second] in
  (First ∈ turns ∧ Second ∈ turns)
  ∧ documents (database (interleave turns (accept emptyDatabase r r)))
    = documents (run (post_subscribe r) emptyDatabase).2.
Proof.
  intros r turns.
  assert (First ∈ turns) as H1 by left.
  assert (Second ∈ turns) as H2 by (right; left).
  split; [by split|].
  apply (concurrent_duplicate_subscribe r r "testingList" "a@hackillinois.org"
           emptyDatabase turns); try done; by apply sampleRequest_carries.
Defined.

Lemma subscribe_effect_by_name_witness :
  let r := sampleRequest None (Some "testingList") (Some "b@hackillinois.org") in
  let db := {| documents := [{| newsletterId := "alumni";
                                subscribers := ["z@hackillinois.org"] |};
                             {| newsletterId := "testingList";
                                subscribers := ["a@hackillinois.org"] |}];
               connected := true |} in
  connected db = true
  ∧ subscribersOf "testingList" (run (post_subscribe r) db).2
    = Some ["a@hackillinois.org"; "b@hackillinois.org"]
  ∧ subscribersOf "alumni" (run (post_subscribe r) db).2 = subscribersOf "alumni" db.
Proof.
  intros r db. split; [reflexivity|]. split.
  - apply (subscribe_effect_by_name r "testingList" "b@hackillinois.org" db "testingList");
      [by apply sampleRequest_carries|reflexivity].
  - apply (subscribe_effect_by_name r "testingList" "b@hackillinois.org" db "alumni");
      [by apply sampleRequest_carries|reflexivity].
Defined.

Lemma subscribe_document_count_witness :
  let r := sampleRequest None (Some "testingList") (Some "a@hackillinois.org") in
  let db := {| documents := [{| newsletterId := "alumni";
                                subscribers := ["z@hackillinois.org"] |}];
               connected := true |} in
  connected db = true
  ∧ length (documents (run (post_subscribe r) db).2) = 1 + 1.
Proof.
  intros r db. split; [reflexivity|].
  apply (subscribe_document_count r "testingList" "a@hackillinois.org" db);
    [by apply sampleRequest_carries|reflexivity].
Defined.
